(** * A shallow embedding of the Nebius provider adapter
    (src/core/llm/llms/Nebius.ts): message conversion, request building,
    endpoint resolution, the chat stream and text completion. *)

From Stdlib Require Import Ascii String List ZArith QArith Bool Lia.
Import ListNotations.
Open Scope string_scope.

(** ** Data model *)

(** [MessagePart.type] of the core types: ["text" | "imageUrl"]. *)
Inductive PartType := PText | PImageUrl.

Definition part_type_tag (t : PartType) : string :=
  match t with PText => "text" | PImageUrl => "imageUrl" end.

(** [part.imageUrl = { url }]; optional on a part. *)
Record ImageUrl := mkImageUrl { iu_url : string }.

(** A [MessagePart]: [text] and [imageUrl] are optional fields. *)
Record MessagePart := mkPart {
  part_type : PartType;
  part_text : option string;
  part_imageUrl : option ImageUrl
}.

(** [MessageContent = string | MessagePart[]]. *)
Inductive MessageContent :=
| ContentString (s : string)
| ContentParts (ps : list MessagePart).

(** Properties of a message other than [role] and [content], which the object
    spread [{...message}] copies unchanged. *)
Definition Extra := list (string * string).

Record ChatMessage := mkMsg {
  role : string;
  content : MessageContent;
  msg_extra : Extra
}.

(** The image reference built by [{ ...part.imageUrl, detail: "low" }]:
    [url] is present only when [part.imageUrl] was. *)
Record WireImageUrl := mkWireImageUrl {
  wiu_url : option string;
  wiu_detail : string
}.

(** The [any]-typed wire part [msg] of [_convertMessage]. *)
Record WirePart := mkWirePart {
  wp_type : string;
  wp_text : option string;
  wp_image_url : option WireImageUrl
}.

Inductive WireContent :=
| WireString (s : string)
| WireParts (ps : list WirePart).

Record WireMessage := mkWireMsg {
  w_role : string;
  w_content : WireContent;
  w_extra : Extra
}.

(** ** [_convertMessage] *)

(** [Array.prototype.join("")] maps [undefined] entries to the empty string. *)
Definition js_join_texts (xs : list (option string)) : string :=
  String.concat "" (map (fun o => match o with Some s => s | None => "" end) xs).

(** [const msg: any = { type: part.type, text: part.text };
     if (part.type === "imageUrl") { msg.image_url = {...}; msg.type = "image_url" }] *)
Definition convert_part (part : MessagePart) : WirePart :=
  let msg := mkWirePart (part_type_tag (part_type part)) (part_text part) None in
  match part_type part with
  | PImageUrl =>
      let image_url :=
        mkWireImageUrl (option_map iu_url (part_imageUrl part)) "low" in
      mkWirePart "image_url" (wp_text msg) (Some image_url)
  | PText => msg
  end.

Definition is_text_part (p : MessagePart) : bool :=
  match part_type p with PText => true | PImageUrl => false end.

Definition _convertMessage (message : ChatMessage) : WireMessage :=
  match content message with
  | ContentString s =>
      (* return message; *)
      mkWireMsg (role message) (WireString s) (msg_extra message)
  | ContentParts ps =>
      if negb (existsb (fun item => negb (is_text_part item)) ps) then
        mkWireMsg (role message)
          (WireString (js_join_texts (map part_text ps))) (msg_extra message)
      else
        mkWireMsg (role message) (WireParts (map convert_part ps))
          (msg_extra message)
  end.

(** ** [_convertArgs] *)

(** The fields of [CompletionOptions] read by [_convertArgs]; absent fields
    are [None]. JSON numbers are rationals here. *)
Record CompletionOptions := mkOptions {
  opt_model : string;
  opt_maxTokens : option Z;
  opt_temperature : option Q;
  opt_topP : option Q;
  opt_frequencyPenalty : option Q;
  opt_presencePenalty : option Q;
  opt_stop : option (list string);
  opt_stream : option bool
}.

(** The adapter's own state read by the code. *)
Record Nebius := mkNebius {
  apiBase : option string;
  maxStopWords : option Z
}.

(** The request body [finalOptions]. *)
Record RequestBody := mkBody {
  b_messages : list WireMessage;
  b_model : string;
  b_max_tokens : option Z;
  b_temperature : option Q;
  b_top_p : option Q;
  b_frequency_penalty : option Q;
  b_presence_penalty : option Q;
  b_stream : bool;
  b_stop : option (list string)
}.

(** [Array.prototype.slice(0, end)] for an integral [end]: a negative end
    counts from the back of the array, and the end is clamped to the length. *)
Definition js_slice0 {A} (xs : list A) (end_ : Z) : list A :=
  let len := Z.of_nat (length xs) in
  let e := if (end_ <? 0)%Z then Z.max (len + end_) 0 else Z.min end_ len in
  firstn (Z.to_nat e) xs.

Definition _convertArgs (self : Nebius) (options : CompletionOptions)
    (messages : list ChatMessage) : RequestBody :=
  mkBody
    (map _convertMessage messages)
    (opt_model options)
    (opt_maxTokens options)
    (opt_temperature options)
    (opt_topP options)
    (opt_frequencyPenalty options)
    (opt_presencePenalty options)
    (* stream: options.stream ?? true *)
    (match opt_stream options with Some b => b | None => true end)
    (* stop: this.maxStopWords !== undefined
               ? options.stop?.slice(0, this.maxStopWords) : options.stop *)
    (match maxStopWords self with
     | Some n => option_map (fun st => js_slice0 st n) (opt_stop options)
     | None => opt_stop options
     end).

(** ** Errors *)

Inductive Error :=
| ConfigurationError   (* "No API base URL provided. ..." *)
| InvalidURL           (* TypeError thrown by the URL constructor *)
| TransportError (msg : string)
| DecodeError          (* response.json() or the SSE decoder failed *)
| TypeErrorUndefined.  (* property read on undefined *)

Inductive result (A : Type) :=
| Ok (a : A)
| Err (e : Error).
Arguments Ok {A} a.
Arguments Err {A} e.

(** ** [new URL(url, base)] *)

(** A URL built by the WHATWG URL constructor, kept symbolic: the reference
    [url_rel] resolved against [url_base]. *)
Record URL := mkURL { url_rel : string; url_base : string }.

Definition is_alpha (c : Ascii.ascii) : bool :=
  let n := Ascii.nat_of_ascii c in
  (Nat.leb 65 n && Nat.leb n 90) || (Nat.leb 97 n && Nat.leb n 122).

Definition is_scheme_char (c : Ascii.ascii) : bool :=
  let n := Ascii.nat_of_ascii c in
  is_alpha c || (Nat.leb 48 n && Nat.leb n 57)
  || Nat.eqb n 43 || Nat.eqb n 45 || Nat.eqb n 46.

Fixpoint scheme_rest (s : string) : bool :=
  match s with
  | EmptyString => false
  | String c r =>
      if Ascii.eqb c ":"%char then true
      else if is_scheme_char c then scheme_rest r else false
  end.

(** The base parses as an absolute URL only if it starts with a scheme
    [ALPHA *(ALPHA / DIGIT / "+" / "-" / ".") ":"]. *)
Definition has_scheme (s : string) : bool :=
  match s with
  | EmptyString => false
  | String c r => is_alpha c && scheme_rest r
  end.

(** The constructor [new URL(url, base)], modelled only as far as its
    failure on a base that is not an absolute URL: a base without a scheme
    makes it throw a [TypeError]. *)
Definition new_URL (url base : string) : result URL :=
  if has_scheme base then Ok (mkURL url base) else Err InvalidURL.

(** ** [_getEndpoint] *)

Inductive Endpoint := EpChatCompletions | EpCompletions | EpModels.

Definition endpoint_path (e : Endpoint) : string :=
  match e with
  | EpChatCompletions => "chat/completions"
  | EpCompletions => "completions"
  | EpModels => "models"
  end.

(** [!this.apiBase]: [undefined] and the empty string are falsy. *)
Definition js_falsy_string (o : option string) : bool :=
  match o with None => true | Some s => String.eqb s "" end.

Definition _getEndpoint (self : Nebius) (endpoint : Endpoint) : result URL :=
  match apiBase self with
  | Some base =>
      if js_falsy_string (apiBase self) then Err ConfigurationError
      else
        match endpoint with
        | EpCompletions =>
            (* Nebius doesn't support completions endpoint yet. *)
            new_URL "chat/completions" base
        | _ => new_URL (endpoint_path endpoint) base
        end
  | None => Err ConfigurationError
  end.

(** ** Responses *)

(** A streamed [delta]: [{ role?, content? }]; a [null] content is [None]
    like an absent one, both being falsy. *)
Record Delta := mkDelta { d_role : option string; d_content : option string }.

Record EvChoice := mkEvChoice { ec_delta : option Delta }.

(** One object decoded by [streamSse]: [{ choices?: [{ delta? }] }]. *)
Record Event := mkEvent { ev_choices : option (list EvChoice) }.

(** The complete [message] of a non-streaming response:
    [{ role, content }]. *)
Record RespMessage := mkRespMessage { rm_role : string; rm_content : string }.

Record NSChoice := mkNSChoice { nc_message : RespMessage }.

(** The HTTP response as the two readers of [_streamChat] see it:
    [response.json()] ([None] when the body is not valid JSON, else the
    [choices] of [{ choices: [...] }]) and [streamSse(response)] (the decoded
    events, then whether the decoder fails after them). *)
Record Response := mkResponse {
  r_json : option (list NSChoice);
  r_events : list Event;
  r_sse_error : bool
}.

(** The outcome of [this.fetch(...)]. *)
Inductive FetchResult :=
| FetchFailed (msg : string)
| Fetched (r : Response).

(** What [_streamChat] yields: a streamed delta or a complete message. *)
Inductive Yielded :=
| YDelta (d : Delta)
| YMessage (m : RespMessage).

(** Observable steps of a run, in order. *)
Inductive Action :=
| AFetch (url : URL) (body : RequestBody)  (* the outbound POST *)
| AReadJson                                (* await response.json() *)
| ARecv (ev : Event)                       (* one value of streamSse *)
| AYield (y : Yielded).

Definition yields (tr : list Action) : list Yielded :=
  flat_map (fun a => match a with AYield y => [y] | _ => [] end) tr.

(** ** [_streamChat] *)

(** [for await (const value of streamSse(response)) {
       if (value.choices?.[0]?.delta?.content) yield value.choices[0].delta; }] *)
Fixpoint sse_loop (values : list Event) : list Action :=
  match values with
  | [] => []
  | value :: rest =>
      ARecv value ::
      (match ev_choices value with
       | Some (c :: _) =>
           match ec_delta c with
           | Some delta =>
               match d_content delta with
               | Some s => if String.eqb s "" then [] else [AYield (YDelta delta)]
               | None => []
               end
           | None => []
           end
       | _ => []
       end) ++ sse_loop rest
  end.

Definition _streamChat (self : Nebius) (messages : list ChatMessage)
    (options : CompletionOptions) (net : FetchResult)
    : list Action * result unit :=
  let body := _convertArgs self options messages in
  match _getEndpoint self EpChatCompletions with
  | Err e => ([], Err e)
  | Ok url =>
      match net with
      | FetchFailed m => ([AFetch url body], Err (TransportError m))
      | Fetched response =>
          if Bool.eqb (b_stream body) false then
            (* const data = await response.json();
               yield data.choices[0].message; return; *)
            match r_json response with
            | None => ([AFetch url body; AReadJson], Err DecodeError)
            | Some (c :: _) =>
                ([AFetch url body; AReadJson; AYield (YMessage (nc_message c))],
                 Ok tt)
            | Some [] => ([AFetch url body; AReadJson], Err TypeErrorUndefined)
            end
          else
            (AFetch url body :: sse_loop (r_events response),
             if r_sse_error response then Err DecodeError else Ok tt)
      end
  end.

(** ** [_complete] *)

(** [chunk.content] as [completion += chunk.content] appends it. *)
Definition chunk_content (y : Yielded) : string :=
  match y with
  | YDelta d => match d_content d with Some s => s | None => "undefined" end
  | YMessage m => rm_content m
  end.

(** One turn of [for await (const chunk of ...) completion += chunk.content]. *)
Definition complete_step (completion : string) (a : Action) : string :=
  match a with AYield chunk => completion ++ chunk_content chunk | _ => completion end.

Definition user_message (prompt : string) : ChatMessage :=
  mkMsg "user" (ContentString prompt) [].

Definition _complete (self : Nebius) (prompt : string)
    (options : CompletionOptions) (net : FetchResult) : result string :=
  let (tr, out) := _streamChat self [user_message prompt] options net in
  match out with
  | Err e => Err e
  | Ok _ =>
      Ok (fold_left complete_step tr "")
  end.

(** ** [_streamComplete] *)

(** Modelled from the spec: [stripImages] of ../images.js (not in src/)
    strips the non-text (image) content of a message content; a plain string
    carries none and is returned as it is. Every chunk content reaching it
    from [_streamChat] is a string. *)
Definition stripImages (content : string) : string := content.

(** [for await (const chunk of this._streamChat([{ role: "user", content: prompt }],
     options)) yield stripImages(chunk.content);]: the strings yielded, then
    how the generator ends. *)
Definition _streamComplete (self : Nebius) (prompt : string)
    (options : CompletionOptions) (net : FetchResult)
    : list string * result unit :=
  let (tr, out) := _streamChat self [user_message prompt] options net in
  (map (fun chunk => stripImages (chunk_content chunk)) (yields tr), out).

(** ** [_getHeaders] *)



(** ** The constructor *)




Definition is_fetch (a : Action) : bool :=
  match a with AFetch _ _ => true | _ => false end.

(** ** Spec-side notions *)

(** The text payload of a part, the empty string when it has none. *)
Definition text_payload (p : MessagePart) : string :=
  match part_text p with Some t => t | None => "" end.

(** The delta of the first choice of a streamed event, if any. *)
Definition first_choice_delta (ev : Event) : option Delta :=
  match ev_choices ev with
  | Some (c :: _) => ec_delta c
  | _ => None
  end.

Definition has_text_content (d : Delta) : bool :=
  match d_content d with Some s => negb (String.eqb s "") | None => false end.

(** What the assembler emits for one event: the first choice's delta when it
    carries non-empty text, nothing otherwise. *)
Definition emitted (ev : Event) : list Yielded :=
  match first_choice_delta ev with
  | Some d => if has_text_content d then [YDelta d] else []
  | None => []
  end.

(** The text fragment carried by a yielded item, when it carries one. *)
Definition fragment (y : Yielded) : option string :=
  match y with
  | YDelta d => d_content d
  | YMessage m => Some (rm_content m)
  end.

Definition fragments (ys : list Yielded) : list string :=
  flat_map (fun y => match fragment y with Some s => [s] | None => [] end) ys.

(** ** Helper lemmas *)

Lemma string_app_assoc (a b c : string) : (a ++ b) ++ c = a ++ (b ++ c).
Proof. induction a as [|ch a IH]; simpl; [reflexivity | now rewrite IH]. Qed.

Lemma string_app_empty_r (a : string) : a ++ "" = a.
Proof. induction a as [|ch a IH]; simpl; [reflexivity | now rewrite IH]. Qed.

Lemma map_convert_part_nth (ps : list MessagePart) (i : nat) (p : MessagePart) :
  nth_error ps i = Some p ->
  nth_error (map convert_part ps) i = Some (convert_part p).
Proof. intros H. rewrite nth_error_map, H. reflexivity. Qed.

(** ** Message Normalizer *)

(** C5: a plain-string message passes unchanged; an all-text part sequence
    collapses to the in-order concatenation of its text payloads, and
    normalizing the collapsed message again yields the same string. *)
Theorem convertMessage_text_collapse :
  (forall r s x,
     _convertMessage (mkMsg r (ContentString s) x) = mkWireMsg r (WireString s) x) /\
  (forall r ps x,
     forallb is_text_part ps = true ->
     let s := String.concat "" (map text_payload ps) in
     _convertMessage (mkMsg r (ContentParts ps) x) = mkWireMsg r (WireString s) x /\
     _convertMessage (mkMsg r (ContentString s) x) = mkWireMsg r (WireString s) x).
Proof.
  split; [reflexivity|].
  intros r ps x Hall s. split; [|reflexivity].
  unfold _convertMessage; simpl.
  assert (Hex : existsb (fun item => negb (is_text_part item)) ps = false).
  { induction ps as [|p ps IH]; simpl in *; [reflexivity|].
    apply andb_true_iff in Hall as [Hp Hps].
    rewrite Hp; simpl. now apply IH. }
  rewrite Hex; simpl. unfold js_join_texts, s.
  now rewrite map_map.
Qed.

(** C6: a message with at least one non-text part becomes the ordered
    sequence of its wire parts; each keeps its text, a text part keeps its
    kind, and an image part becomes an image reference with detail "low"
    under the kind tag "image_url". *)
Theorem convertMessage_mixed_media :
  forall r ps x,
  existsb (fun item => negb (is_text_part item)) ps = true ->
  exists wps,
    _convertMessage (mkMsg r (ContentParts ps) x) = mkWireMsg r (WireParts wps) x /\
    length wps = length ps /\
    forall i p, nth_error ps i = Some p ->
      exists w, nth_error wps i = Some w /\
        wp_text w = part_text p /\
        (part_type p = PText -> wp_type w = "text" /\ wp_image_url w = None) /\
        (part_type p = PImageUrl ->
           wp_type w = "image_url" /\
           wp_image_url w =
             Some (mkWireImageUrl (option_map iu_url (part_imageUrl p)) "low")).
Proof.
  intros r ps x Hmixed.
  exists (map convert_part ps).
  unfold _convertMessage; simpl. rewrite Hmixed; simpl.
  split; [reflexivity|]. split; [apply length_map|].
  intros i p Hi. exists (convert_part p).
  split; [now apply map_convert_part_nth|].
  destruct p as [[|] t iu]; simpl.
  - repeat split; discriminate.
  - repeat split; discriminate.
Qed.

(** C10: in every branch the normalizer keeps the role and every field of
    the message other than its content. *)
Theorem convertMessage_frame :
  forall m, w_role (_convertMessage m) = role m /\
            w_extra (_convertMessage m) = msg_extra m.
Proof.
  intros [r [s|ps] x]; unfold _convertMessage; simpl; [split; reflexivity|].
  destruct (negb _); split; reflexivity.
Qed.

(** ** Request Builder *)

(** C7: the request's stream field is true when the caller leaves the flag
    unspecified, and the caller's value otherwise. *)
Theorem convertArgs_stream_default :
  forall self options messages,
  (opt_stream options = None -> b_stream (_convertArgs self options messages) = true) /\
  (forall b, opt_stream options = Some b ->
             b_stream (_convertArgs self options messages) = b).
Proof.
  intros self options messages; unfold _convertArgs; simpl.
  split; [intros -> | intros b ->]; reflexivity.
Qed.

Lemma js_slice0_nonneg {A} (xs : list A) (n : Z) :
  (0 <= n)%Z -> js_slice0 xs n = firstn (Z.to_nat n) xs.
Proof.
  intros Hn. unfold js_slice0.
  replace (n <? 0)%Z with false by (symmetry; apply Z.ltb_ge; lia).
  destruct (Z.le_ge_cases n (Z.of_nat (length xs))) as [Hle|Hge].
  - now rewrite Z.min_l by exact Hle.
  - rewrite Z.min_r by lia. rewrite Nat2Z.id.
    rewrite firstn_all2 by lia. rewrite firstn_all2; [reflexivity|lia].
Qed.

(** C4: with a configured maximum [n], the stop list is cut to its first [n]
    entries in order (exactly [n] of them when it had at least [n]), and an
    absent list stays absent; without a maximum the list passes through. *)
Theorem convertArgs_stop_truncation :
  forall self options messages,
  (forall n, maxStopWords self = Some n -> (0 <= n)%Z ->
     b_stop (_convertArgs self options messages) =
       option_map (firstn (Z.to_nat n)) (opt_stop options) /\
     (forall st, opt_stop options = Some st -> (Z.to_nat n <= length st)%nat ->
        exists st', b_stop (_convertArgs self options messages) = Some st' /\
                    length st' = Z.to_nat n /\
                    app st' (skipn (Z.to_nat n) st) = st) /\
     (opt_stop options = None -> b_stop (_convertArgs self options messages) = None)) /\
  (maxStopWords self = None ->
     b_stop (_convertArgs self options messages) = opt_stop options).
Proof.
  intros self options messages; unfold _convertArgs; simpl. split.
  - intros n Hmax Hn. rewrite Hmax.
    split; [|split].
    + destruct (opt_stop options); simpl; [|reflexivity].
      now rewrite js_slice0_nonneg.
    + intros st Hst Hlen. rewrite Hst; simpl.
      exists (firstn (Z.to_nat n) st).
      rewrite js_slice0_nonneg by exact Hn.
      split; [reflexivity|]. split; [rewrite length_firstn; lia|].
      apply firstn_skipn.
    + intros ->. reflexivity.
  - intros ->. reflexivity.
Qed.

(** ** Endpoint resolution *)

(** C8: with a base URL set, the legacy "completions" name resolves to the
    chat-completions path against the base, and "chat/completions" and
    "models" resolve to their own paths against it. *)
Theorem getEndpoint_paths :
  forall self base,
  apiBase self = Some base -> base <> "" ->
  _getEndpoint self EpCompletions = new_URL "chat/completions" base /\
  _getEndpoint self EpChatCompletions = new_URL "chat/completions" base /\
  _getEndpoint self EpModels = new_URL "models" base.
Proof.
  intros self base Hb Hne. unfold _getEndpoint. rewrite Hb. simpl.
  apply String.eqb_neq in Hne. rewrite Hne.
  repeat split; reflexivity.
Qed.

Lemma yields_app (l1 l2 : list Action) : yields (l1 ++ l2)%list = (yields l1 ++ yields l2)%list.
Proof. unfold yields. apply flat_map_app. Qed.

Lemma yields_map_AYield (ys : list Yielded) : yields (map AYield ys) = ys.
Proof. induction ys as [|y ys IH]; simpl; [reflexivity | now rewrite IH]. Qed.

Lemma sse_loop_eq (values : list Event) :
  sse_loop values = flat_map (fun ev => ARecv ev :: map AYield (emitted ev)) values.
Proof.
  induction values as [|ev rest IH]; simpl; [reflexivity|].
  rewrite IH. f_equal. f_equal.
  unfold emitted, first_choice_delta, has_text_content.
  destruct (ev_choices ev) as [[|c cs]|]; try reflexivity.
  destruct (ec_delta c) as [d|]; try reflexivity.
  destruct (d_content d) as [s|]; try reflexivity.
  destruct (String.eqb s ""); reflexivity.
Qed.

Lemma yields_sse_loop (values : list Event) :
  yields (sse_loop values) = flat_map emitted values.
Proof.
  rewrite sse_loop_eq. induction values as [|ev rest IH]; simpl; [reflexivity|].
  rewrite yields_app. simpl. rewrite yields_map_AYield. now rewrite IH.
Qed.

Lemma emitted_have_text (values : list Event) :
  Forall (fun y => fragment y <> None) (flat_map emitted values).
Proof.
  induction values as [|ev rest IH]; simpl; [constructor|].
  apply Forall_app. split; [|exact IH].
  unfold emitted, has_text_content.
  destruct (first_choice_delta ev) as [d|]; [|constructor].
  destruct (d_content d) eqn:Hc; simpl; [|constructor].
  destruct (negb _); constructor; [|constructor].
  simpl. rewrite Hc. discriminate.
Qed.

Lemma streamChat_yields_have_text self messages options net :
  Forall (fun y => fragment y <> None)
         (yields (fst (_streamChat self messages options net))).
Proof.
  unfold _streamChat.
  destruct (_getEndpoint self EpChatCompletions) as [url|e]; simpl; [|constructor].
  destruct net as [m|response]; simpl; [constructor|].
  destruct (Bool.eqb _ false).
  - destruct (r_json response) as [[|c cs]|]; simpl; repeat constructor.
    discriminate.
  - simpl. rewrite yields_sse_loop. apply emitted_have_text.
Qed.

Lemma concat_empty_cons (x : string) (xs : list string) :
  String.concat "" (x :: xs) = x ++ String.concat "" xs.
Proof. destruct xs; simpl; [now rewrite string_app_empty_r | reflexivity]. Qed.

Lemma fold_complete_step (tr : list Action) (acc : string) :
  fold_left complete_step tr acc =
  acc ++ String.concat "" (map chunk_content (yields tr)).
Proof.
  revert acc. induction tr as [|a tr IH]; intros acc; simpl.
  - now rewrite string_app_empty_r.
  - rewrite IH. destruct a; try reflexivity.
    cbn [app map complete_step]. rewrite concat_empty_cons. apply string_app_assoc.
Qed.

Lemma chunk_contents_fragments (ys : list Yielded) :
  Forall (fun y => fragment y <> None) ys ->
  map chunk_content ys = fragments ys.
Proof.
  induction 1 as [|y ys Hy _ IH]; simpl; [reflexivity|].
  rewrite IH. destruct y as [d|m]; simpl in *; [|reflexivity].
  destruct (d_content d); [reflexivity | contradiction].
Qed.

(** ** Response Assembler *)

(** C1: in streaming mode, once the request is issued, every decoded event is
    received in arrival order and followed by the delta of its first choice
    exactly when that delta carries non-empty text; events without one emit
    nothing, and the yielded sequence is exactly those deltas. *)
Theorem streamChat_streaming_yields :
  forall self messages options url response,
  b_stream (_convertArgs self options messages) = true ->
  _getEndpoint self EpChatCompletions = Ok url ->
  r_sse_error response = false ->
  let run := _streamChat self messages options (Fetched response) in
  fst run = AFetch url (_convertArgs self options messages) ::
            flat_map (fun ev => ARecv ev :: map AYield (emitted ev))
                     (r_events response) /\
  yields (fst run) = flat_map emitted (r_events response) /\
  snd run = Ok tt.
Proof.
  intros self messages options url response Hs Hurl Herr run.
  unfold run, _streamChat. rewrite Hurl, Hs, Herr. simpl.
  rewrite sse_loop_eq. split; [reflexivity|]. split; [|reflexivity].
  rewrite <- sse_loop_eq. apply yields_sse_loop.
Qed.

(** C2: when the built body's stream field is false, the run fetches, reads
    the single JSON body, yields the first choice's complete message once and
    ends; no event of the stream is read. *)
Theorem streamChat_non_streaming :
  forall self messages options url response c rest,
  b_stream (_convertArgs self options messages) = false ->
  _getEndpoint self EpChatCompletions = Ok url ->
  r_json response = Some (c :: rest) ->
  let run := _streamChat self messages options (Fetched response) in
  run = ([AFetch url (_convertArgs self options messages); AReadJson;
          AYield (YMessage (nc_message c))], Ok tt) /\
  yields (fst run) = [YMessage (nc_message c)] /\
  Forall (fun a => match a with ARecv _ => False | _ => True end) (fst run).
Proof.
  intros self messages options url response c rest Hs Hurl Hjson run.
  assert (Hrun : run = ([AFetch url (_convertArgs self options messages); AReadJson;
                         AYield (YMessage (nc_message c))], Ok tt)).
  { unfold run, _streamChat. rewrite Hurl, Hs, Hjson. reflexivity. }
  rewrite Hrun. split; [reflexivity|]. split; [reflexivity|].
  repeat constructor.
Qed.

(** ** Text completion *)

(** C3: [_complete] runs the chat stream on the single user message holding
    the prompt, every yielded item carries a text fragment, and a run that
    ends normally returns the concatenation of the fragments in yield order. *)
Theorem complete_concatenates :
  forall self prompt options net,
  let run := _streamChat self [user_message prompt] options net in
  Forall (fun y => fragment y <> None) (yields (fst run)) /\
  _complete self prompt options net =
    match snd run with
    | Ok _ => Ok (String.concat "" (fragments (yields (fst run))))
    | Err e => Err e
    end.
Proof.
  intros self prompt options net run.
  pose proof (streamChat_yields_have_text self [user_message prompt] options net) as Hf.
  split; [exact Hf|].
  unfold _complete. fold run. fold run in Hf. clearbody run.
  destruct run as [tr out]. simpl in *.
  destruct out as [u|e]; [|reflexivity].
  rewrite fold_complete_step. simpl.
  now rewrite chunk_contents_fragments.
Qed.

(** ** Configuration errors *)

(** C9 (as stated, refuted): a base URL that is present but has no scheme
    still makes endpoint resolution throw, from the URL constructor. *)
Lemma getEndpoint_present_base_error :
  _getEndpoint (mkNebius (Some "api.studio.nebius.ai/v1/") None) EpChatCompletions
  = Err InvalidURL.
Proof. reflexivity. Qed.

(** C9 (amended): with the base URL unset (undefined or empty) every
    endpoint resolution, [_streamChat] and [_complete] raise the
    configuration error and no request is issued; with a non-empty base URL
    the configuration error is never raised, and a failure of the URL
    constructor also happens before any request. *)
Theorem getEndpoint_configuration_error :
  (forall self,
     js_falsy_string (apiBase self) = true ->
     (forall e, _getEndpoint self e = Err ConfigurationError) /\
     (forall messages options net,
        _streamChat self messages options net = ([], Err ConfigurationError)) /\
     (forall prompt options net,
        _complete self prompt options net = Err ConfigurationError)) /\
  (forall self base,
     apiBase self = Some base -> base <> "" ->
     (forall e, _getEndpoint self e <> Err ConfigurationError) /\
     (forall err messages options net,
        _getEndpoint self EpChatCompletions = Err err ->
        _streamChat self messages options net = ([], Err err))).
Proof.
  split.
  - intros self Hf.
    assert (He : forall e, _getEndpoint self e = Err ConfigurationError).
    { intros e. unfold _getEndpoint. rewrite Hf.
      destruct (apiBase self); reflexivity. }
    split; [exact He|]. split.
    + intros messages options net. unfold _streamChat. now rewrite He.
    + intros prompt options net. unfold _complete, _streamChat. now rewrite He.
  - intros self base Hb Hne. split.
    + intros e. unfold _getEndpoint. rewrite Hb. simpl.
      apply String.eqb_neq in Hne. rewrite Hne.
      unfold new_URL. destruct e; destruct (has_scheme base); discriminate.
    + intros err messages options net Herr.
      unfold _streamChat. now rewrite Herr.
Qed.

(** ** Concrete runs *)

Definition nebius_default : Nebius :=
  mkNebius (Some "https://api.studio.nebius.ai/v1/") None.

Definition options_with (stop : option (list string)) (stream : option bool)
  : CompletionOptions :=
  mkOptions "meta-llama/Meta-Llama-3.1-70B-Instruct" None None None None None
            stop stream.

Definition ev_text (s : string) : Event :=
  mkEvent (Some [mkEvChoice (Some (mkDelta None (Some s)))]).

Definition hello_stream : Response :=
  mkResponse None
    [ev_text "Hel"; mkEvent None; ev_text "lo"; ev_text "";
     mkEvent (Some []); ev_text " world"] false.

Example complete_hello_world :
  _complete nebius_default "hi" (options_with None None) (Fetched hello_stream)
  = Ok "Hello world".
Proof. reflexivity. Qed.

Example streamChat_done_message :
  yields (fst (_streamChat nebius_default [user_message "hi"]
                 (options_with None (Some false))
                 (Fetched (mkResponse
                    (Some [mkNSChoice (mkRespMessage "assistant" "done")]) [] false))))
  = [YMessage (mkRespMessage "assistant" "done")].
Proof. reflexivity. Qed.

(** ** Witnesses *)

Definition text_part (s : string) : MessagePart := mkPart PText (Some s) None.
Definition image_part (u : string) : MessagePart :=
  mkPart PImageUrl None (Some (mkImageUrl u)).

Lemma convertMessage_text_collapse_witness :
  forallb is_text_part [text_part "a"; text_part "b"] = true /\
  _convertMessage (mkMsg "user" (ContentParts [text_part "a"; text_part "b"]) [])
  = mkWireMsg "user" (WireString "ab") [].
Proof.
  split; [reflexivity|].
  apply (proj2 convertMessage_text_collapse "user" [text_part "a"; text_part "b"] []).
  reflexivity.
Defined.

Lemma convertMessage_mixed_media_witness :
  existsb (fun item => negb (is_text_part item)) [text_part "see"; image_part "u"] = true /\
  exists wps,
    _convertMessage (mkMsg "user" (ContentParts [text_part "see"; image_part "u"]) [])
    = mkWireMsg "user" (WireParts wps) [].
Proof.
  split; [reflexivity|].
  destruct (convertMessage_mixed_media "user" [text_part "see"; image_part "u"] [])
    as [wps [H _]]; [reflexivity|].
  exists wps. exact H.
Defined.

Lemma convertArgs_stream_default_witness :
  opt_stream (options_with None None) = None /\
  b_stream (_convertArgs nebius_default (options_with None None) []) = true.
Proof.
  split; [reflexivity|].
  apply (proj1 (convertArgs_stream_default nebius_default (options_with None None) [])).
  reflexivity.
Defined.

Lemma convertArgs_stop_truncation_witness :
  maxStopWords (mkNebius None (Some 2%Z)) = Some 2%Z /\
  b_stop (_convertArgs (mkNebius None (Some 2%Z))
            (options_with (Some ["a"; "b"; "c"]) None) [])
  = Some ["a"; "b"].
Proof.
  split; [reflexivity|].
  destruct (convertArgs_stop_truncation (mkNebius None (Some 2%Z))
              (options_with (Some ["a"; "b"; "c"]) None) []) as [H _].
  destruct (H 2%Z eq_refl) as [Hs _]; [lia|].
  rewrite Hs. reflexivity.
Defined.

Lemma getEndpoint_paths_witness :
  apiBase nebius_default = Some "https://api.studio.nebius.ai/v1/" /\
  _getEndpoint nebius_default EpCompletions
  = Ok (mkURL "chat/completions" "https://api.studio.nebius.ai/v1/").
Proof.
  split; [reflexivity|].
  destruct (getEndpoint_paths nebius_default "https://api.studio.nebius.ai/v1/")
    as [H _]; [reflexivity | discriminate |].
  rewrite H. reflexivity.
Defined.

Lemma streamChat_streaming_yields_witness :
  _getEndpoint nebius_default EpChatCompletions
  = Ok (mkURL "chat/completions" "https://api.studio.nebius.ai/v1/") /\
  yields (fst (_streamChat nebius_default [user_message "hi"]
                 (options_with None None) (Fetched hello_stream)))
  = [YDelta (mkDelta None (Some "Hel")); YDelta (mkDelta None (Some "lo"));
     YDelta (mkDelta None (Some " world"))].
Proof.
  split; [reflexivity|].
  destruct (streamChat_streaming_yields nebius_default [user_message "hi"]
              (options_with None None)
              (mkURL "chat/completions" "https://api.studio.nebius.ai/v1/")
              hello_stream) as [_ [H _]]; [reflexivity | reflexivity | reflexivity |].
  rewrite H. reflexivity.
Defined.

Lemma streamChat_non_streaming_witness :
  b_stream (_convertArgs nebius_default (options_with None (Some false))
              [user_message "hi"]) = false /\
  yields (fst (_streamChat nebius_default [user_message "hi"]
                 (options_with None (Some false))
                 (Fetched (mkResponse
                    (Some [mkNSChoice (mkRespMessage "assistant" "done")]) [] false))))
  = [YMessage (mkRespMessage "assistant" "done")].
Proof.
  split; [reflexivity|].
  destruct (streamChat_non_streaming nebius_default [user_message "hi"]
              (options_with None (Some false))
              (mkURL "chat/completions" "https://api.studio.nebius.ai/v1/")
              (mkResponse (Some [mkNSChoice (mkRespMessage "assistant" "done")]) [] false)
              (mkNSChoice (mkRespMessage "assistant" "done")) [])
    as [_ [H _]]; [reflexivity | reflexivity | reflexivity |].
  exact H.
Defined.

Lemma getEndpoint_configuration_error_witness :
  js_falsy_string (apiBase (mkNebius None None)) = true /\
  _complete (mkNebius None None) "hi" (options_with None None) (Fetched hello_stream)
  = Err ConfigurationError.
Proof.
  split; [reflexivity|].
  apply (proj1 getEndpoint_configuration_error (mkNebius None None)).
  reflexivity.
Defined.

(** ** Further properties of the adapter *)

Lemma sse_loop_no_fetch (values : list Event) :
  forallb (fun a => negb (is_fetch a)) (sse_loop values) = true.
Proof.
  rewrite sse_loop_eq. induction values as [|ev rest IH]; simpl; [reflexivity|].
  rewrite forallb_app, IH, andb_true_r.
  induction (emitted ev); simpl; [reflexivity | exact IHl].
Qed.

Lemma getEndpoint_chat_url self url :
  _getEndpoint self EpChatCompletions = Ok url -> url_rel url = "chat/completions".
Proof.
  unfold _getEndpoint, new_URL.
  destruct (apiBase self) as [base|]; simpl; [|discriminate].
  destruct (String.eqb base ""); [discriminate|].
  destruct (has_scheme base); [|discriminate].
  intros H; inversion H; reflexivity.
Qed.

(** Every run of [_streamChat] issues at most one request: none when the
    endpoint cannot be resolved, otherwise exactly one, first, carrying the
    built body to the chat-completions path. *)
Theorem streamChat_single_request :
  forall self messages options net,
  let run := _streamChat self messages options net in
  (forall e, _getEndpoint self EpChatCompletions = Err e -> run = ([], Err e)) /\
  (forall url, _getEndpoint self EpChatCompletions = Ok url ->
     url_rel url = "chat/completions" /\
     exists rest, fst run = AFetch url (_convertArgs self options messages) :: rest /\
                  forallb (fun a => negb (is_fetch a)) rest = true).
Proof.
  intros self messages options net run. split.
  - intros e He. unfold run, _streamChat. now rewrite He.
  - intros url Hurl. split; [exact (getEndpoint_chat_url self url Hurl)|].
    unfold run, _streamChat. rewrite Hurl.
    destruct net as [m|response]; simpl.
    + exists []. split; reflexivity.
    + destruct (Bool.eqb _ false).
      * destruct (r_json response) as [[|c cs]|]; simpl;
          eexists; split; reflexivity.
      * exists (sse_loop (r_events response)). split; [reflexivity|].
        apply sse_loop_no_fetch.
Qed.


(** In streaming mode, a decoder failure after some events keeps the deltas
    already yielded in the run, but [_complete] discards the text gathered so
    far and fails with the decode error. *)
Theorem stream_decode_error_discards_completion :
  forall self prompt options url response,
  b_stream (_convertArgs self options [user_message prompt]) = true ->
  _getEndpoint self EpChatCompletions = Ok url ->
  r_sse_error response = true ->
  yields (fst (_streamChat self [user_message prompt] options (Fetched response)))
    = flat_map emitted (r_events response) /\
  snd (_streamChat self [user_message prompt] options (Fetched response)) = Err DecodeError /\
  _complete self prompt options (Fetched response) = Err DecodeError.
Proof.
  intros self prompt options url response Hs Hurl Herr.
  unfold _complete, _streamChat. rewrite Hurl, Hs, Herr. simpl.
  split; [apply yields_sse_loop|]. split; reflexivity.
Qed.

(** In streaming mode, a stream with no event carrying non-empty text makes
    [_complete] return the empty string. *)
Theorem complete_empty_stream :
  forall self prompt options url response,
  b_stream (_convertArgs self options [user_message prompt]) = true ->
  _getEndpoint self EpChatCompletions = Ok url ->
  r_sse_error response = false ->
  flat_map emitted (r_events response) = [] ->
  _complete self prompt options (Fetched response) = Ok "".
Proof.
  intros self prompt options url response Hs Hurl Herr Hnone.
  unfold _complete, _streamChat. rewrite Hurl, Hs, Herr. simpl.
  rewrite fold_complete_step. simpl.
  rewrite yields_sse_loop, Hnone. reflexivity.
Qed.


(** [_streamComplete] yields the text fragments of the chat stream on the
    user message, in order, and ends as that stream ends; on a normal end
    their concatenation is what [_complete] returns, and on an error
    [_complete] fails with the same error. *)
Theorem streamComplete_matches_complete :
  forall self prompt options net,
  fst (_streamComplete self prompt options net)
    = fragments (yields (fst (_streamChat self [user_message prompt] options net))) /\
  snd (_streamComplete self prompt options net)
    = snd (_streamChat self [user_message prompt] options net) /\
  _complete self prompt options net =
    match snd (_streamComplete self prompt options net) with
    | Ok _ => Ok (String.concat "" (fst (_streamComplete self prompt options net)))
    | Err e => Err e
    end.
Proof.
  intros self prompt options net.
  pose proof (streamChat_yields_have_text self [user_message prompt] options net) as Hf.
  unfold _streamComplete, _complete.
  destruct (_streamChat self [user_message prompt] options net) as [tr out].
  simpl in *. unfold stripImages.
  assert (Hm : map (fun chunk => chunk_content chunk) (yields tr) = fragments (yields tr)).
  { apply chunk_contents_fragments, Hf. }
  rewrite Hm. split; [reflexivity|]. split; [reflexivity|].
  destruct out as [u|e]; [|reflexivity].
  rewrite fold_complete_step. simpl.
  change (fun chunk => chunk_content chunk) with chunk_content in Hm.
  now rewrite Hm.
Qed.



(** A negative stop-word cap [n] does not keep the first entries: like
    [slice(0, n)] it drops the last [-n] entries of the stop list. *)
Theorem convertArgs_negative_stop_cap :
  forall self options messages n st,
  maxStopWords self = Some n -> (n < 0)%Z -> opt_stop options = Some st ->
  b_stop (_convertArgs self options messages)
    = Some (firstn (length st - Z.to_nat (- n)) st).
Proof.
  intros self options messages n st Hmax Hn Hst.
  unfold _convertArgs; simpl. rewrite Hmax, Hst. simpl.
  unfold js_slice0. replace (n <? 0)%Z with true by (symmetry; apply Z.ltb_lt; lia).
  f_equal. f_equal.
  destruct (Z.le_ge_cases (Z.of_nat (length st) + n) 0) as [Hle|Hge].
  - rewrite Z.max_r by exact Hle. simpl. lia.
  - rewrite Z.max_l by lia. lia.
Qed.

(** The normalizer emits a list of wire parts exactly when the message's
    content is a part sequence holding at least one image part; otherwise it
    emits a string. *)
Theorem convertMessage_parts_iff_image :
  forall m,
  (exists wps, w_content (_convertMessage m) = WireParts wps) <->
  (exists ps, content m = ContentParts ps /\
              exists p, In p ps /\ part_type p = PImageUrl).
Proof.
  intros [r [s|ps] x]; unfold _convertMessage; simpl.
  - split; [intros [wps H]; discriminate | intros [ps [H _]]; discriminate].
  - destruct (existsb (fun item => negb (is_text_part item)) ps) eqn:He; simpl.
    + split; [intros _|intros _; eexists; reflexivity].
      exists ps. split; [reflexivity|].
      apply existsb_exists in He as [p [Hin Hp]].
      exists p. split; [exact Hin|].
      destruct p as [[|] t iu]; [discriminate|reflexivity].
    + split; [intros [wps H]; discriminate|].
      intros [ps' [Heq [p [Hin Hp]]]]. inversion Heq; subst ps'.
      assert (Hx : existsb (fun item => negb (is_text_part item)) ps = true).
      { apply existsb_exists. exists p. split; [exact Hin|].
        unfold is_text_part. now rewrite Hp. }
      congruence.
Qed.

Definition chat_url : URL :=
  mkURL "chat/completions" "https://api.studio.nebius.ai/v1/".

Lemma streamChat_single_request_witness :
  _getEndpoint nebius_default EpChatCompletions = Ok chat_url /\
  url_rel chat_url = "chat/completions".
Proof.
  split; [reflexivity|].
  apply (proj2 (streamChat_single_request nebius_default [user_message "hi"]
                  (options_with None None) (Fetched hello_stream)) chat_url).
  reflexivity.
Defined.


Lemma stream_decode_error_discards_completion_witness :
  r_sse_error (mkResponse None [ev_text "Hel"] true) = true /\
  _complete nebius_default "hi" (options_with None None)
    (Fetched (mkResponse None [ev_text "Hel"] true)) = Err DecodeError.
Proof.
  split; [reflexivity|].
  apply (stream_decode_error_discards_completion nebius_default "hi"
           (options_with None None) chat_url (mkResponse None [ev_text "Hel"] true));
    reflexivity.
Defined.

Lemma complete_empty_stream_witness :
  flat_map emitted [mkEvent None; ev_text ""] = [] /\
  _complete nebius_default "hi" (options_with None None)
    (Fetched (mkResponse None [mkEvent None; ev_text ""] false)) = Ok "".
Proof.
  split; [reflexivity|].
  apply (complete_empty_stream nebius_default "hi" (options_with None None) chat_url
           (mkResponse None [mkEvent None; ev_text ""] false)); reflexivity.
Defined.




Lemma convertArgs_negative_stop_cap_witness :
  (-1 < 0)%Z /\
  b_stop (_convertArgs (mkNebius None (Some (-1)%Z))
            (options_with (Some ["a"; "b"; "c"]) None) [])
  = Some ["a"; "b"].
Proof.
  split; [lia|].
  rewrite (convertArgs_negative_stop_cap (mkNebius None (Some (-1)%Z))
             (options_with (Some ["a"; "b"; "c"]) None) [] (-1)%Z ["a"; "b"; "c"]
             eq_refl ltac:(lia) eq_refl).
  reflexivity.
Defined.
